(** * pongo2 filters: registry, invoker, filter-call node and grammar rule

    A shallow embedding of [filters.go].  The process-wide [filters]
    variable (a [*sync.Map]) becomes a finite map threaded through a small
    state monad; nilable Go pointers become [option]; a Go result made of a
    value pointer and an error pointer becomes a pair of options. *)

From stdpp Require Import base option strings list gmap.
From Stdlib Require Import ZArith.

Local Open Scope string_scope.

(** ** Collaborators: values, tokens, templates, errors *)

(** Modelled from the spec: the runtime value representation is external;
    a value wraps a dynamically typed Go [any], of which the embedding keeps
    the untyped [nil] and a few scalars. *)
Inductive any : Type :=
  | ANil
  | ABool (b : bool)
  | AInt (z : Z)
  | AString (s : string).

Record Value : Type := mkValue { val : any }.

(** Modelled from the spec: [AsValue] builds a (non-nil) [*Value] from any
    input; [AsValue(nil)] is the canonical "no parameter" sentinel. *)
Definition AsValue (i : any) : option Value := Some (mkValue i).

(** [map[string]any], the bound variables handed to every filter. *)
Abbreviation Context := (gmap string any).

(** Modelled from the spec: the lexer's token kinds; [filters.go] names
    [TokenIdentifier] and [TokenSymbol] only. *)
Inductive TokenType : Type :=
  | TokenError
  | EOF
  | TokenHTML
  | TokenKeyword
  | TokenIdentifier
  | TokenString
  | TokenNumber
  | TokenSymbol.

#[global] Instance TokenType_eq_dec : EqDecision TokenType.
Proof. solve_decision. Defined.

(** Modelled from the spec: a token carries its kind, its text ([Val], read
    by [parseFilter]) and its source location. *)
Record Token : Type := mkToken {
  Typ : TokenType;
  Val : string;
  Line : nat;
  Col : nat
}.

(** Modelled from the spec: the owning template, known by its identity. *)
Record Template : Type := mkTemplate { tplName : string }.

(** Go's [error] values built by [fmt.Errorf] are kept as their message. *)
Abbreviation error := string (only parsing).

(** Modelled from the spec: the error type carries a sender tag, an
    underlying cause and an attachable source location (a token and the
    owning template).  [filters.go] itself writes [Sender] and [OrigError];
    the fields it leaves out take Go's zero value [nil]. *)
Record Error : Type := mkError {
  ErrTemplate : option Template;
  ErrToken : option Token;
  Sender : string;
  OrigError : option error
}.

(** Modelled from the spec: "attach source location if not already
    attached" -- an error that carries no token yet receives the given token
    and template; an error that has one is returned as it is. *)
Definition updateFromTokenIfNeeded (e : Error) (template : option Template)
    (t : option Token) : Error :=
  match ErrToken e with
  | Some _ => e
  | None =>
      {| ErrTemplate := template; ErrToken := t;
         Sender := Sender e; OrigError := OrigError e |}
  end.

(** ** Filter functions and the registry *)

(** The type filter functions must fulfil: input value, parameter and bound
    variables in, output value and error out (all pointers nilable). *)
Definition FilterFunction : Type :=
  option Value -> option Value -> Context -> option Value * option Error.

(** The contents of [filters]: name to filter function. *)
Abbreviation Registry := (gmap string FilterFunction).

(** Computations over the process-wide registry. *)
Definition M (A : Type) : Type := Registry -> A * Registry.

#[global] Instance M_ret : MRet M := fun A (a : A) fs => (a, fs).
#[global] Instance M_bind : MBind M := fun A B (k : A -> M B) (m : M A) fs =>
  let '(a, fs') := m fs in k a fs'.

(** The four [sync.Map] methods the file uses. *)
Module filters.
Definition Load (name : string) : M (option FilterFunction) :=
  fun fs => (fs !! name, fs).
Definition Store (name : string) (fn : FilterFunction) : M unit :=
  fun fs => (tt, <[name := fn]> fs).
Definition Swap (name : string) (fn : FilterFunction) : M (option FilterFunction) :=
  fun fs => (fs !! name, <[name := fn]> fs).
Definition Delete (name : string) : M unit :=
  fun fs => (tt, delete name fs).
End filters.

(** The three messages of the registry, named after the spec's taxonomy. *)
Definition DuplicateRegistration (name : string) : error :=
  "filter with name '" +:+ name +:+ "' is already registered".
Definition MissingRegistration (name : string) : error :=
  "filter with name '" +:+ name +:+ "' does not exist (therefore cannot be overridden)".
Definition UnknownFilter (name : string) : error :=
  "filter with name '" +:+ name +:+ "' not found".

Definition FilterExists (name : string) : M bool :=
  r ← filters.Load name;
  mret (bool_decide (is_Some r)).

Definition RegisterFilter (name : string) (fn : FilterFunction) : M (option error) :=
  existing ← FilterExists name;
  if existing : bool then mret (Some (DuplicateRegistration name))
  else _ ← filters.Store name fn; mret None.

Definition ReplaceFilter (name : string) (fn : FilterFunction) : M (option error) :=
  existing ← FilterExists name;
  if negb existing then mret (Some (MissingRegistration name))
  else _ ← filters.Swap name fn; mret None.

Definition OverrideFilter (name : string) (fn : FilterFunction) : M (option error) :=
  _ ← filters.Delete name;
  _ ← filters.Store name fn;
  mret None.

Definition ApplyFilter (name : string) (value param : option Value) (bind : Context)
    : M (option Value * option Error) :=
  storedValue ← filters.Load name;
  match storedValue with
  | None =>
      mret (None, Some {| ErrTemplate := None; ErrToken := None;
                          Sender := "applyfilter";
                          OrigError := Some (UnknownFilter name) |})
  | Some fn =>
      let param := match param with None => AsValue ANil | Some _ => param end in
      mret (fn value param bind)
  end.

(** ** The filter-call node *)

(** Modelled from the spec: the render context gives the owning template's
    identity and the publicly bound variables. *)
Record ExecutionContext : Type := mkExecutionContext {
  template : option Template;
  Public : Context
}.

(** Modelled from the spec: an argument expression is an [IEvaluator], of
    which [filters.go] calls the one method [Evaluate]. *)
Record IEvaluator : Type := mkIEvaluator {
  Evaluate : ExecutionContext -> option Value * option Error
}.

Record filterCall : Type := mkFilterCall {
  token : option Token;
  name : string;
  parameter : option IEvaluator;
  filterFunc : FilterFunction
}.

(** The first half of [Execute]: the parameter handed to the filter, or the
    evaluation error that ends the call. *)
Definition evalParameter (fc : filterCall) (ctx : ExecutionContext)
    : option Value + Error :=
  match parameter fc with
  | Some ev =>
      match Evaluate ev ctx with
      | (_, Some err) => inr err
      | (param, None) => inl param
      end
  | None => inl (AsValue ANil)
  end.

Definition Execute (fc : filterCall) (v : option Value) (ctx : ExecutionContext)
    : option Value * option Error :=
  match evalParameter fc ctx with
  | inr err => (None, Some err)
  | inl param =>
      match filterFunc fc v param (Public ctx) with
      | (_, Some err) =>
          (None, Some (updateFromTokenIfNeeded err (template ctx) (token fc)))
      | (filteredValue, None) => (filteredValue, None)
      end
  end.

(** ** The token stream *)

(** Modelled from the spec: the parser walks a token list with a cursor. *)
Record Parser : Type := mkParser {
  tokens : list Token;
  idx : nat
}.

Definition Current (p : Parser) : option Token := tokens p !! idx p.

Definition Consume (p : Parser) : Parser :=
  {| tokens := tokens p; idx := S (idx p) |}.

(** Modelled from the spec: "peek token of type+literal" looks at the
    current token without moving. *)
Definition Peek (typ : TokenType) (v : string) (p : Parser) : option Token :=
  match Current p with
  | Some t => if decide (Typ t = typ ∧ Val t = v) then Some t else None
  | None => None
  end.

(** Modelled from the spec: "match token of type+literal" returns the
    current token and moves past it when it fits, and stays put with [nil]
    otherwise. *)
Definition Match (typ : TokenType) (v : string) (p : Parser) : option Token * Parser :=
  match Peek typ v p with
  | Some t => (Some t, Consume p)
  | None => (None, p)
  end.

(** Modelled from the spec: "match token of type", likewise on the kind
    alone. *)
Definition MatchType (typ : TokenType) (p : Parser) : option Token * Parser :=
  match Current p with
  | Some t => if decide (Typ t = typ) then (Some t, Consume p) else (None, p)
  | None => (None, p)
  end.

(** The chain terminator [parseFilter] looks for after a [:]. *)
Definition atTerminator (p : Parser) : bool :=
  bool_decide (is_Some (Peek TokenSymbol "}}" p)).

(** ** The grammar rule  Filter = IDENT | IDENT ":" FilterArg *)

Definition NotAnIdentifier : string := "Filter name must be an identifier.".
Definition UnknownFilterParse (name : string) : string :=
  "Filter '" +:+ name +:+ "' does not exist.".
Definition MissingArgument : string := "Filter parameter required after ':'.".

Section Grammar.

(** The parser's location-carrying error constructor [p.Error(msg, token)]
    and the expression rule [p.parseVariableOrLiteral()] belong to the
    surrounding grammar; the rule below is read for every such pair. *)
Variable Parser_Error : Parser -> string -> option Token -> Error.
Variable parseVariableOrLiteral :
  Parser -> M ((option IEvaluator * option Error) * Parser).

(** [parseFilter] returns its result together with the moved parser.  Go
    allocates the node before the lookup and fills [filterFunc] and
    [parameter] in afterwards; here the record is written out where it is
    returned, with the same fields. *)
Definition parseFilter (p : Parser)
    : M ((option filterCall * option Error) * Parser) :=
  match MatchType TokenIdentifier p with
  | (None, p) => mret ((None, Some (Parser_Error p NotAnIdentifier None)), p)
  | (Some identToken, p) =>
      storedFunc ← filters.Load (Val identToken);
      match storedFunc with
      | None =>
          mret ((None, Some (Parser_Error p (UnknownFilterParse (Val identToken))
                                          (Some identToken))), p)
      | Some filterFn =>
          match Match TokenSymbol ":" p with
          | (Some _, p) =>
              if atTerminator p
              then mret ((None, Some (Parser_Error p MissingArgument None)), p)
              else
                '(r, p) ← parseVariableOrLiteral p;
                match r with
                | (_, Some err) => mret ((None, Some err), p)
                | (v, None) =>
                    mret ((Some {| token := Some identToken;
                                    name := Val identToken;
                                    parameter := v;
                                    filterFunc := filterFn |}, None), p)
                end
          | (None, p) =>
              mret ((Some {| token := Some identToken;
                              name := Val identToken;
                              parameter := None;
                              filterFunc := filterFn |}, None), p)
          end
      end
  end.

End Grammar.

(** ** Fixtures: filters, an error constructor and an expression rule to run
    the definitions on *)

Module Fixture.

Definition notANumber (sender : string) : Error :=
  {| ErrTemplate := None; ErrToken := None; Sender := sender;
     OrigError := Some "not a number" |}.

(** [double] multiplies a number by two. *)
Definition double : FilterFunction := fun v _ _ =>
  match v with
  | Some (mkValue (AInt z)) => (AsValue (AInt (2 * z)), None)
  | _ => (None, Some (notANumber "filter:double"))
  end.

(** [neg] negates a number. *)
Definition neg : FilterFunction := fun v _ _ =>
  match v with
  | Some (mkValue (AInt z)) => (AsValue (AInt (- z)), None)
  | _ => (None, Some (notANumber "filter:neg"))
  end.

(** [add] adds its parameter, and fails on anything but two numbers. *)
Definition add : FilterFunction := fun v param _ =>
  match v, param with
  | Some (mkValue (AInt z)), Some (mkValue (AInt k)) => (AsValue (AInt (z + k)), None)
  | _, _ => (None, Some (notANumber "filter:add"))
  end.

(** [noparam] tells whether it was handed the "no parameter" sentinel. *)
Definition noparam : FilterFunction := fun _ param _ =>
  match param with
  | Some (mkValue ANil) => (AsValue (ABool true), None)
  | _ => (AsValue (ABool false), None)
  end.

(** A parser error constructor: sender ["parser"], the message, and the
    token it was given, if any. *)
Definition parserError (p : Parser) (msg : string) (t : option Token) : Error :=
  {| ErrTemplate := None; ErrToken := t; Sender := "parser";
     OrigError := Some msg |}.

Definition digit (a : Ascii.ascii) : Z := Z.of_nat (Ascii.nat_of_ascii a) - 48.

Fixpoint decimal (acc : Z) (s : string) : Z :=
  match s with
  | EmptyString => acc
  | String a s' => decimal (10 * acc + digit a) s'
  end.

Definition literal (z : Z) : IEvaluator :=
  {| Evaluate := fun _ => (AsValue (AInt z), None) |}.

Definition unbound (x : string) : Error :=
  {| ErrTemplate := None; ErrToken := None; Sender := "variable";
     OrigError := Some ("unbound variable " +:+ x) |}.

Definition variable (x : string) : IEvaluator :=
  {| Evaluate := fun ctx =>
       match Public ctx !! x with
       | Some a => (AsValue a, None)
       | None => (None, Some (unbound x))
       end |}.

(** An expression rule: a number token is a literal, an identifier a
    variable reference, anything else an error; the registry is left
    alone. *)
Definition variableOrLiteral (p : Parser)
    : M ((option IEvaluator * option Error) * Parser) :=
  match Current p with
  | Some t =>
      match Typ t with
      | TokenNumber => mret ((Some (literal (decimal 0 (Val t))), None), Consume p)
      | TokenIdentifier => mret ((Some (variable (Val t)), None), Consume p)
      | _ => mret ((None, Some (parserError p "Unexpected token." (Some t))), p)
      end
  | None => mret ((None, Some (parserError p "Unexpected EOF." None)), p)
  end.

Definition ident (s : string) (col : nat) : Token := mkToken TokenIdentifier s 1 col.
Definition symbol (s : string) (col : nat) : Token := mkToken TokenSymbol s 1 col.
Definition number (s : string) (col : nat) : Token := mkToken TokenNumber s 1 col.

Definition stream (ts : list Token) : Parser := {| tokens := ts; idx := 0 |}.

Definition registry : Registry :=
  <["double" := double]> (<["neg" := neg]> (<["add" := add]> ∅)).

Definition ctx0 : ExecutionContext :=
  {| template := Some (mkTemplate "index.tpl"); Public := ∅ |}.

Definition int (z : Z) : option Value := AsValue (AInt z).

(** A node as [parseFilter] builds it for the identifier [t]. *)
Definition node (t : Token) (arg : option IEvaluator) (fn : FilterFunction)
    : filterCall :=
  {| token := Some t; name := Val t; parameter := arg; filterFunc := fn |}.

(** [leaky] hands back its input together with an error. *)
Definition leaky : FilterFunction := fun v _ _ =>
  (v, Some (notANumber "filter:leaky")).

End Fixture.

(** ** Start-up and sequences of calls *)

(** [init] gives [filters] a fresh, empty [sync.Map]. *)
Definition init : Registry := ∅.

(** One call of an exported function of the registry, as a client makes it. *)
Inductive Call : Type :=
  | CallFilterExists (n : string)
  | CallRegisterFilter (n : string) (fn : FilterFunction)
  | CallReplaceFilter (n : string) (fn : FilterFunction)
  | CallOverrideFilter (n : string) (fn : FilterFunction)
  | CallApplyFilter (n : string) (value param : option Value) (bind : Context).

(** The call is made and its result dropped. *)
Definition runCall (c : Call) : M unit :=
  match c with
  | CallFilterExists n => _ ← FilterExists n; mret tt
  | CallRegisterFilter n fn => _ ← RegisterFilter n fn; mret tt
  | CallReplaceFilter n fn => _ ← ReplaceFilter n fn; mret tt
  | CallOverrideFilter n fn => _ ← OverrideFilter n fn; mret tt
  | CallApplyFilter n value param bind => _ ← ApplyFilter n value param bind; mret tt
  end.

Fixpoint runCalls (cs : list Call) : M unit :=
  match cs with
  | [] => mret tt
  | c :: cs => _ ← runCall c; runCalls cs
  end.

(** The name a call can add to the registry: [RegisterFilter] and
    [OverrideFilter] store under their name, the other calls add nothing. *)
Definition installs (c : Call) : gset string :=
  match c with
  | CallRegisterFilter n _ | CallOverrideFilter n _ => {[ n ]}
  | _ => ∅
  end.

(** Registering a list of filters in order, as a package does at start-up;
    the errors are collected in call order. *)
Fixpoint registerAll (l : list (string * FilterFunction)) : M (list (option error)) :=
  match l with
  | [] => mret []
  | (n, fn) :: l =>
      e ← RegisterFilter n fn;
      es ← registerAll l;
      mret (e :: es)
  end.

(** Overriding with a list of filters in order. *)
Fixpoint overrideAll (l : list (string * FilterFunction)) : M unit :=
  match l with
  | [] => mret tt
  | (n, fn) :: l => _ ← OverrideFilter n fn; overrideAll l
  end.

(** * Properties *)

(** Runs the monadic plumbing of a registry operation. *)
Ltac run_M :=
  unfold FilterExists, filters.Load, filters.Store, filters.Swap, filters.Delete;
  unfold mbind, M_bind, mret, M_ret; simpl.

(** ** The registry *)

Lemma FilterExists_run (n : string) (fs : Registry) :
  FilterExists n fs = (bool_decide (is_Some (fs !! n)), fs).
Proof. reflexivity. Qed.

Lemma RegisterFilter_fresh (n : string) (f : FilterFunction) (fs : Registry) :
  fs !! n = None -> RegisterFilter n f fs = (None, <[n := f]> fs).
Proof.
  intros Hn. unfold RegisterFilter. run_M.
  rewrite bool_decide_eq_false_2; [reflexivity|].
  rewrite Hn. intros [x Hx]. discriminate.
Qed.

Lemma RegisterFilter_taken (n : string) (f : FilterFunction) (fs : Registry) :
  is_Some (fs !! n) -> RegisterFilter n f fs = (Some (DuplicateRegistration n), fs).
Proof.
  intros Hn. unfold RegisterFilter. run_M.
  rewrite bool_decide_eq_true_2; [reflexivity | exact Hn].
Qed.

(** A registration that goes through found the name free and installed the
    function. *)
Lemma RegisterFilter_ok_inv (n : string) (f : FilterFunction) (fs : Registry) :
  (RegisterFilter n f fs).1 = None ->
  fs !! n = None /\ (RegisterFilter n f fs).2 = <[n := f]> fs.
Proof.
  destruct (fs !! n) as [h|] eqn:Hn.
  - rewrite RegisterFilter_taken by (rewrite Hn; eauto). discriminate.
  - rewrite RegisterFilter_fresh by exact Hn. auto.
Qed.

(** Whatever the first call did, the name is taken afterwards. *)
Lemma RegisterFilter_registered (n : string) (f : FilterFunction) (fs : Registry) :
  is_Some ((RegisterFilter n f fs).2 !! n).
Proof.
  destruct (fs !! n) as [h|] eqn:Hn.
  - rewrite RegisterFilter_taken by (rewrite Hn; eauto). simpl. rewrite Hn. eauto.
  - rewrite RegisterFilter_fresh by exact Hn. simpl.
    rewrite lookup_insert_eq. eauto.
Qed.

Lemma ApplyFilter_found (n : string) (f : FilterFunction) (v p : option Value)
    (b : Context) (fs : Registry) :
  fs !! n = Some f ->
  ApplyFilter n v p b fs =
    (f v (match p with None => AsValue ANil | Some _ => p end) b, fs).
Proof. intros Hn. unfold ApplyFilter. run_M. rewrite Hn. reflexivity. Qed.

Lemma ApplyFilter_missing (n : string) (v p : option Value) (b : Context)
    (fs : Registry) :
  fs !! n = None ->
  ApplyFilter n v p b fs =
    ((None, Some {| ErrTemplate := None; ErrToken := None; Sender := "applyfilter";
                    OrigError := Some (UnknownFilter n) |}), fs).
Proof. intros Hn. unfold ApplyFilter. run_M. rewrite Hn. reflexivity. Qed.

(** C1: after [RegisterFilter n f], a second [RegisterFilter n g] returns the
    duplicate-registration error and leaves the whole registry, hence the
    entry for [n], as it was; and when the first call registered [f] (it
    returned no error), [ApplyFilter n] goes on calling [f], with the absent
    parameter replaced by the sentinel. *)
Theorem RegisterFilter_twice (n : string) (f g : FilterFunction) (fs : Registry) :
  let fs1 := (RegisterFilter n f fs).2 in
  RegisterFilter n g fs1 = (Some (DuplicateRegistration n), fs1)
  /\ ((RegisterFilter n f fs).1 = None ->
      fs1 !! n = Some f
      /\ (forall v b, ApplyFilter n v None b fs1 = (f v (AsValue ANil) b, fs1))
      /\ (forall v p b, ApplyFilter n v (Some p) b fs1 = (f v (Some p) b, fs1))).
Proof.
  intros fs1. split.
  - apply RegisterFilter_taken, RegisterFilter_registered.
  - intros Hok. apply RegisterFilter_ok_inv in Hok as [_ Hfs1].
    assert (Hf : fs1 !! n = Some f).
    { subst fs1. rewrite Hfs1. apply lookup_insert_eq. }
    split; [exact Hf|]. split; intros.
    + apply (ApplyFilter_found n f v None b fs1 Hf).
    + apply (ApplyFilter_found n f v (Some p) b fs1 Hf).
Qed.

Lemma RegisterFilter_twice_witness :
  (RegisterFilter "double" Fixture.double ∅).1 = None
  /\ ApplyFilter "double" (Fixture.int 3) None ∅
       (RegisterFilter "double" Fixture.double ∅).2
     = ((Fixture.int 6, None), (RegisterFilter "double" Fixture.double ∅).2).
Proof.
  split; [reflexivity|].
  destruct (RegisterFilter_twice "double" Fixture.double Fixture.neg ∅) as [_ H].
  destruct (H eq_refl) as [_ [H0 _]].
  exact (H0 (Fixture.int 3) ∅).
Defined.

(** C2: for a name the registry does not hold, [ApplyFilter] returns no
    value and an error with sender ["applyfilter"] whose cause is the
    unknown-filter message, and the registry is what it was. *)
Theorem ApplyFilter_unknown (n : string) (v p : option Value) (b : Context)
    (fs : Registry) :
  fs !! n = None ->
  exists e,
    ApplyFilter n v p b fs = ((None, Some e), fs)
    /\ Sender e = "applyfilter"
    /\ OrigError e = Some (UnknownFilter n)
    /\ ErrToken e = None /\ ErrTemplate e = None.
Proof.
  intros Hn. eexists. split; [apply ApplyFilter_missing, Hn|]. simpl. auto.
Qed.

Lemma ApplyFilter_unknown_witness :
  exists e,
    ApplyFilter "bogus" (Fixture.int 3) None ∅ Fixture.registry
      = ((None, Some e), Fixture.registry)
    /\ Sender e = "applyfilter"
    /\ OrigError e = Some (UnknownFilter "bogus")
    /\ ErrToken e = None /\ ErrTemplate e = None.
Proof.
  apply (ApplyFilter_unknown "bogus" (Fixture.int 3) None ∅ Fixture.registry).
  reflexivity.
Defined.

(** C3: for a registered name, [ApplyFilter] with a nil parameter calls the
    registered function on the value, the sentinel [AsValue(nil)] and the
    bound variables, and returns that call's value and error as they are. *)
Theorem ApplyFilter_nil_param (n : string) (f : FilterFunction) (v : option Value)
    (b : Context) (fs : Registry) :
  fs !! n = Some f ->
  ApplyFilter n v None b fs = (f v (AsValue ANil) b, fs).
Proof. intros Hn. apply (ApplyFilter_found n f v None b fs Hn). Qed.

Lemma ApplyFilter_nil_param_witness :
  ApplyFilter "noparam" None None ∅ (<["noparam" := Fixture.noparam]> Fixture.registry)
  = ((AsValue (ABool true), None), <["noparam" := Fixture.noparam]> Fixture.registry).
Proof.
  apply (ApplyFilter_nil_param "noparam" Fixture.noparam None ∅
           (<["noparam" := Fixture.noparam]> Fixture.registry)).
  reflexivity.
Defined.

Lemma ReplaceFilter_missing (n : string) (g : FilterFunction) (fs : Registry) :
  fs !! n = None -> ReplaceFilter n g fs = (Some (MissingRegistration n), fs).
Proof.
  intros Hn. unfold ReplaceFilter. run_M.
  rewrite bool_decide_eq_false_2; [reflexivity|].
  rewrite Hn. intros [x Hx]. discriminate.
Qed.

Lemma ReplaceFilter_present (n : string) (g : FilterFunction) (fs : Registry) :
  is_Some (fs !! n) -> ReplaceFilter n g fs = (None, <[n := g]> fs).
Proof.
  intros Hn. unfold ReplaceFilter. run_M.
  rewrite bool_decide_eq_true_2; [reflexivity | exact Hn].
Qed.

(** Replacing touches no other name. *)
Lemma ReplaceFilter_other (n m : string) (g : FilterFunction) (fs : Registry) :
  m <> n -> (ReplaceFilter n g fs).2 !! m = fs !! m.
Proof.
  intros Hm. destruct (fs !! n) as [h|] eqn:Hn.
  - rewrite ReplaceFilter_present by (rewrite Hn; eauto). simpl.
    apply lookup_insert_ne. congruence.
  - rewrite ReplaceFilter_missing by exact Hn. reflexivity.
Qed.

(** C5: [ReplaceFilter] on a name without an entry returns the
    missing-registration error and the registry as it was, where the name
    still does not exist; on a registered name it returns no error and the
    entry is the new function. *)
Theorem ReplaceFilter_spec (n : string) (g : FilterFunction) (fs : Registry) :
  (fs !! n = None ->
     ReplaceFilter n g fs = (Some (MissingRegistration n), fs)
     /\ FilterExists n (ReplaceFilter n g fs).2 = (false, fs))
  /\ (is_Some (fs !! n) ->
     ReplaceFilter n g fs = (None, <[n := g]> fs)
     /\ (ReplaceFilter n g fs).2 !! n = Some g).
Proof.
  split; intros Hn.
  - rewrite (ReplaceFilter_missing n g fs Hn). split; [reflexivity|]. simpl.
    rewrite FilterExists_run, Hn. reflexivity.
  - rewrite (ReplaceFilter_present n g fs Hn). split; [reflexivity|]. simpl.
    apply lookup_insert_eq.
Qed.

Lemma ReplaceFilter_spec_witness :
  (ReplaceFilter "bogus" Fixture.neg Fixture.registry
     = (Some (MissingRegistration "bogus"), Fixture.registry)
   /\ FilterExists "bogus" (ReplaceFilter "bogus" Fixture.neg Fixture.registry).2
     = (false, Fixture.registry))
  /\ (ReplaceFilter "double" Fixture.neg Fixture.registry
     = (None, <["double" := Fixture.neg]> Fixture.registry)
   /\ (ReplaceFilter "double" Fixture.neg Fixture.registry).2 !! "double"
     = Some Fixture.neg).
Proof.
  split.
  - apply (ReplaceFilter_spec "bogus" Fixture.neg Fixture.registry). reflexivity.
  - apply (ReplaceFilter_spec "double" Fixture.neg Fixture.registry).
    exists Fixture.double. reflexivity.
Defined.

Lemma OverrideFilter_run (n : string) (g : FilterFunction) (fs : Registry) :
  OverrideFilter n g fs = (None, <[n := g]> (delete n fs)).
Proof. reflexivity. Qed.

(** Overriding touches no other name. *)
Lemma OverrideFilter_other (n m : string) (g : FilterFunction) (fs : Registry) :
  m <> n -> (OverrideFilter n g fs).2 !! m = fs !! m.
Proof.
  intros Hm. rewrite OverrideFilter_run. simpl.
  rewrite lookup_insert_ne by congruence. apply lookup_delete_ne. congruence.
Qed.

(** C6: [OverrideFilter] returns no error whether or not the name was
    registered; afterwards the registry maps the name to the new function,
    and [ApplyFilter] on that name is a call of the new function (with the
    sentinel for an absent parameter). *)
Theorem OverrideFilter_spec (n : string) (g : FilterFunction) (fs : Registry) :
  let fs' := (OverrideFilter n g fs).2 in
  (OverrideFilter n g fs).1 = None
  /\ fs' !! n = Some g
  /\ (forall v b, ApplyFilter n v None b fs' = (g v (AsValue ANil) b, fs'))
  /\ (forall v p b, ApplyFilter n v (Some p) b fs' = (g v (Some p) b, fs')).
Proof.
  intros fs'.
  assert (Hg : fs' !! n = Some g).
  { subst fs'. rewrite OverrideFilter_run. simpl. apply lookup_insert_eq. }
  split; [reflexivity|]. split; [exact Hg|]. split; intros.
  - apply (ApplyFilter_found n g v None b fs' Hg).
  - apply (ApplyFilter_found n g v (Some p) b fs' Hg).
Qed.

(** ** Executing a node *)

Lemma Execute_run (fc : filterCall) (v param : option Value) (ctx : ExecutionContext) :
  evalParameter fc ctx = inl param ->
  Execute fc v ctx =
    match filterFunc fc v param (Public ctx) with
    | (_, Some err) =>
        (None, Some (updateFromTokenIfNeeded err (template ctx) (token fc)))
    | (filteredValue, None) => (filteredValue, None)
    end.
Proof. intros Hp. unfold Execute. rewrite Hp. reflexivity. Qed.

Lemma updateFromTokenIfNeeded_fresh (e : Error) (tpl : option Template)
    (t : option Token) :
  ErrToken e = None ->
  updateFromTokenIfNeeded e tpl t =
    {| ErrTemplate := tpl; ErrToken := t; Sender := Sender e;
       OrigError := OrigError e |}.
Proof. intros He. unfold updateFromTokenIfNeeded. rewrite He. reflexivity. Qed.

Lemma updateFromTokenIfNeeded_located (e : Error) (tpl : option Template)
    (t : option Token) :
  is_Some (ErrToken e) -> updateFromTokenIfNeeded e tpl t = e.
Proof. intros [t' He]. unfold updateFromTokenIfNeeded. rewrite He. reflexivity. Qed.

(** C9: once the parameter is at hand, a filter function that returns an
    error makes [Execute] return no value and that error passed through
    [updateFromTokenIfNeeded] with the context's template and the node's
    token: an error without a location leaves with both attached, sender and
    cause kept.  A filter function that returns no error makes [Execute]
    return its value. *)
Theorem Execute_filter_result (fc : filterCall) (v param : option Value)
    (ctx : ExecutionContext) :
  evalParameter fc ctx = inl param ->
  (forall fv e, filterFunc fc v param (Public ctx) = (fv, Some e) ->
     Execute fc v ctx =
       (None, Some (updateFromTokenIfNeeded e (template ctx) (token fc)))
     /\ (ErrToken e = None ->
         exists e', Execute fc v ctx = (None, Some e')
           /\ ErrToken e' = token fc /\ ErrTemplate e' = template ctx
           /\ Sender e' = Sender e /\ OrigError e' = OrigError e))
  /\ (forall fv, filterFunc fc v param (Public ctx) = (fv, None) ->
     Execute fc v ctx = (fv, None)).
Proof.
  intros Hp. rewrite (Execute_run fc v param ctx Hp). split.
  - intros fv e Hf. rewrite Hf. split; [reflexivity|].
    intros He. eexists. split; [reflexivity|].
    rewrite (updateFromTokenIfNeeded_fresh e _ _ He). simpl. auto.
  - intros fv Hf. rewrite Hf. reflexivity.
Qed.

Lemma Execute_filter_result_witness :
  (exists e',
     Execute (Fixture.node (Fixture.ident "add" 7) None Fixture.add)
             (Fixture.int 3) Fixture.ctx0 = (None, Some e')
     /\ ErrToken e' = Some (Fixture.ident "add" 7)
     /\ ErrTemplate e' = Some (mkTemplate "index.tpl")
     /\ Sender e' = "filter:add" /\ OrigError e' = Some "not a number")
  /\ Execute (Fixture.node (Fixture.ident "double" 7) None Fixture.double)
             (Fixture.int 3) Fixture.ctx0 = (Fixture.int 6, None).
Proof.
  split.
  - destruct (Execute_filter_result
                (Fixture.node (Fixture.ident "add" 7) None Fixture.add)
                (Fixture.int 3) (AsValue ANil) Fixture.ctx0 eq_refl) as [H _].
    destruct (H None (Fixture.notANumber "filter:add") eq_refl) as [_ H'].
    exact (H' eq_refl).
  - destruct (Execute_filter_result
                (Fixture.node (Fixture.ident "double" 7) None Fixture.double)
                (Fixture.int 3) (AsValue ANil) Fixture.ctx0 eq_refl) as [_ H].
    exact (H (Fixture.int 6) eq_refl).
Defined.

(** C10: when the node has a parameter expression whose evaluation returns
    an error, [Execute] returns no value and exactly that error, without
    token or template attached; the result is the same for every filter
    function the node may hold, which is therefore not called. *)
Theorem Execute_parameter_error (tok : option Token) (nm : string)
    (ev : IEvaluator) (fn : FilterFunction) (v pv : option Value)
    (ctx : ExecutionContext) (err : Error) :
  Evaluate ev ctx = (pv, Some err) ->
  Execute {| token := tok; name := nm; parameter := Some ev; filterFunc := fn |}
          v ctx = (None, Some err).
Proof.
  intros Hev. unfold Execute, evalParameter. simpl. rewrite Hev. reflexivity.
Qed.

Lemma Execute_parameter_error_witness :
  Execute (Fixture.node (Fixture.ident "add" 7) (Some (Fixture.variable "n"))
                        Fixture.add)
          (Fixture.int 3) Fixture.ctx0
  = (None, Some (Fixture.unbound "n")).
Proof.
  apply (Execute_parameter_error (Some (Fixture.ident "add" 7)) "add"
           (Fixture.variable "n") Fixture.add (Fixture.int 3) None Fixture.ctx0
           (Fixture.unbound "n")).
  reflexivity.
Defined.

(** ** The token stream *)

Lemma Peek_Some (typ : TokenType) (s : string) (p : Parser) (t : Token) :
  Peek typ s p = Some t <-> Current p = Some t /\ Typ t = typ /\ Val t = s.
Proof.
  unfold Peek. destruct (Current p) as [c|]; [|split; [discriminate | intros [? _]; discriminate]].
  destruct (decide (Typ c = typ ∧ Val c = s)) as [[H1 H2]|Hn]; split.
  - intros [= <-]. auto.
  - intros [[= <-] _]. reflexivity.
  - discriminate.
  - intros [[= <-] [H1 H2]]. destruct Hn. auto.
Qed.

Lemma Match_hit (typ : TokenType) (s : string) (p : Parser) (t : Token) :
  Current p = Some t -> Typ t = typ -> Val t = s ->
  Match typ s p = (Some t, Consume p).
Proof.
  intros Hc Ht Hv. unfold Match.
  rewrite (proj2 (Peek_Some typ s p t)) by auto. reflexivity.
Qed.

Lemma MatchType_hit (typ : TokenType) (p : Parser) (t : Token) :
  Current p = Some t -> Typ t = typ -> MatchType typ p = (Some t, Consume p).
Proof.
  intros Hc Ht. unfold MatchType. rewrite Hc.
  destruct (decide (Typ t = typ)); [reflexivity | contradiction].
Qed.

Lemma MatchType_miss (typ : TokenType) (p : Parser) :
  (forall t, Current p = Some t -> Typ t <> typ) -> MatchType typ p = (None, p).
Proof.
  intros Hc. unfold MatchType. destruct (Current p) as [t|]; [|reflexivity].
  destruct (decide (Typ t = typ)) as [Ht|]; [|reflexivity].
  destruct (Hc t eq_refl Ht).
Qed.

Lemma MatchType_Some (typ : TokenType) (p p' : Parser) (t : Token) :
  MatchType typ p = (Some t, p') ->
  Current p = Some t /\ Typ t = typ /\ p' = Consume p.
Proof.
  unfold MatchType. destruct (Current p) as [c|]; [|discriminate].
  destruct (decide (Typ c = typ)); [|discriminate].
  intros [= <- <-]. auto.
Qed.

Lemma atTerminator_true (p : Parser) :
  atTerminator p = true <-> is_Some (Peek TokenSymbol "}}" p).
Proof. unfold atTerminator. apply bool_decide_eq_true. Qed.

Lemma atTerminator_false (p : Parser) :
  atTerminator p = false <-> Peek TokenSymbol "}}" p = None.
Proof.
  unfold atTerminator. rewrite bool_decide_eq_false.
  split.
  - intros Hn. destruct (Peek TokenSymbol "}}" p); [destruct Hn; eauto | reflexivity].
  - intros -> [x Hx]. discriminate.
Qed.

(** ** The grammar rule *)

Section GrammarFacts.

Context (Parser_Error : Parser -> string -> option Token -> Error)
        (parseVariableOrLiteral :
           Parser -> M ((option IEvaluator * option Error) * Parser)).

Local Abbreviation parseFilter :=
  (parseFilter Parser_Error parseVariableOrLiteral).

Lemma parseFilter_no_ident (p : Parser) (fs : Registry) :
  (forall t, Current p = Some t -> Typ t <> TokenIdentifier) ->
  parseFilter p fs = ((None, Some (Parser_Error p NotAnIdentifier None)), p, fs).
Proof.
  intros Hc. unfold parseFilter.
  rewrite (MatchType_miss _ _ Hc). reflexivity.
Qed.

Lemma parseFilter_unknown (p : Parser) (fs : Registry) (t : Token) :
  Current p = Some t -> Typ t = TokenIdentifier -> fs !! Val t = None ->
  parseFilter p fs =
    ((None, Some (Parser_Error (Consume p) (UnknownFilterParse (Val t)) (Some t))),
     Consume p, fs).
Proof.
  intros Hc Ht Hn. unfold parseFilter.
  rewrite (MatchType_hit _ _ _ Hc Ht). run_M. rewrite Hn. reflexivity.
Qed.

(** A node that comes out of the rule was built from the current
    identifier and the function the registry held for it at that moment. *)
Lemma parseFilter_node (p p' : Parser) (fs fs' : Registry) (fc : filterCall)
    (e : option Error) :
  parseFilter p fs = ((Some fc, e), p', fs') ->
  exists t, Current p = Some t /\ Typ t = TokenIdentifier
    /\ token fc = Some t /\ name fc = Val t
    /\ fs !! Val t = Some (filterFunc fc) /\ e = None.
Proof.
  unfold parseFilter.
  destruct (MatchType TokenIdentifier p) as [[t|] p1] eqn:Hm; [|discriminate].
  apply MatchType_Some in Hm as (Hc & Ht & ->). run_M.
  destruct (fs !! Val t) as [f|] eqn:Hf; [|discriminate].
  destruct (Match TokenSymbol ":" (Consume p)) as [[c|] p2].
  - destruct (atTerminator p2); [discriminate|].
    destruct (parseVariableOrLiteral p2 fs) as [[[v [err|]] p3] fs3];
      [discriminate|].
    intros [= <- <- <- <-]. exists t. simpl. repeat split; assumption.
  - intros [= <- <- <- <-]. exists t. simpl. repeat split; assumption.
Qed.

(** C7: with no identifier under the cursor the rule returns the
    "must be an identifier" error, built by the parser's error constructor
    with no token, and consumes nothing; with an identifier the registry
    does not hold it returns the "does not exist" error built with that
    identifier token; with an identifier the registry maps to a function,
    the rule binds that function when it runs: not followed by [:] it
    returns the node holding that function, and whatever follows, every node
    it returns holds that function, which is the registry's entry for the
    node's name at the time of the parse. *)
Theorem parseFilter_name (p : Parser) (fs : Registry) :
  ((forall t, Current p = Some t -> Typ t <> TokenIdentifier) ->
     parseFilter p fs = ((None, Some (Parser_Error p NotAnIdentifier None)), p, fs))
  /\ (forall t, Current p = Some t -> Typ t = TokenIdentifier ->
      fs !! Val t = None ->
      parseFilter p fs =
        ((None, Some (Parser_Error (Consume p) (UnknownFilterParse (Val t))
                                   (Some t))), Consume p, fs))
  /\ (forall t f, Current p = Some t -> Typ t = TokenIdentifier ->
      fs !! Val t = Some f ->
      (Peek TokenSymbol ":" (Consume p) = None ->
       parseFilter p fs =
         ((Some {| token := Some t; name := Val t; parameter := None;
                   filterFunc := f |}, None), Consume p, fs))
      /\ (forall fc e p' fs', parseFilter p fs = ((Some fc, e), p', fs') ->
          filterFunc fc = f))
  /\ (forall fc e p' fs', parseFilter p fs = ((Some fc, e), p', fs') ->
      fs !! name fc = Some (filterFunc fc)).
Proof.
  split; [apply parseFilter_no_ident|]. split; [apply parseFilter_unknown|].
  split.
  - intros t f Hc Ht Hf. split.
    + intros Hpeek. unfold parseFilter.
      rewrite (MatchType_hit _ _ _ Hc Ht). run_M. rewrite Hf.
      unfold Match. rewrite Hpeek. reflexivity.
    + intros fc e p' fs' Hp.
      destruct (parseFilter_node _ _ _ _ _ _ Hp) as (t' & Hc' & _ & _ & _ & Hb & _).
      congruence.
  - intros fc e p' fs' Hp.
    destruct (parseFilter_node _ _ _ _ _ _ Hp) as (t & _ & _ & _ & -> & Hf & _).
    exact Hf.
Qed.

(** C8: once the identifier is bound and the [:] consumed, a [}}] under
    the cursor makes the rule return the "parameter required" error; any
    other token hands over to the expression rule, whose error is the
    rule's error and whose expression is stored on the node as it is. *)
Theorem parseFilter_argument (p : Parser) (fs : Registry) (t c : Token)
    (f : FilterFunction) :
  Current p = Some t -> Typ t = TokenIdentifier -> fs !! Val t = Some f ->
  Current (Consume p) = Some c -> Typ c = TokenSymbol -> Val c = ":" ->
  let p2 := Consume (Consume p) in
  (is_Some (Peek TokenSymbol "}}" p2) ->
     parseFilter p fs = ((None, Some (Parser_Error p2 MissingArgument None)), p2, fs))
  /\ (Peek TokenSymbol "}}" p2 = None ->
      (forall v err p3 fs3,
         parseVariableOrLiteral p2 fs = (((v, Some err), p3), fs3) ->
         parseFilter p fs = ((None, Some err), p3, fs3))
      /\ (forall v p3 fs3,
         parseVariableOrLiteral p2 fs = (((v, None), p3), fs3) ->
         parseFilter p fs =
           ((Some {| token := Some t; name := Val t; parameter := v;
                     filterFunc := f |}, None), p3, fs3))).
Proof.
  intros Hc Ht Hf Hc2 Htc Hvc p2.
  assert (Hrun : parseFilter p fs =
    if atTerminator p2
    then ((None, Some (Parser_Error p2 MissingArgument None)), p2, fs)
    else match parseVariableOrLiteral p2 fs with
         | (((_, Some err), p3), fs3) => ((None, Some err), p3, fs3)
         | (((v, None), p3), fs3) =>
             ((Some {| token := Some t; name := Val t; parameter := v;
                       filterFunc := f |}, None), p3, fs3)
         end).
  { unfold parseFilter.
    rewrite (MatchType_hit _ _ _ Hc Ht). run_M. rewrite Hf.
    rewrite (Match_hit _ _ _ _ Hc2 Htc Hvc). fold p2.
    destruct (atTerminator p2); [reflexivity|].
    destruct (parseVariableOrLiteral p2 fs) as [[[v [err|]] p3] fs3]; reflexivity. }
  rewrite Hrun. split.
  - intros Hterm. apply atTerminator_true in Hterm. rewrite Hterm. reflexivity.
  - intros Hterm. apply atTerminator_false in Hterm. rewrite Hterm.
    split; intros; rewrite H; reflexivity.
Qed.

(** C4: a node that came out of the rule holds the function the registry
    mapped its name to when the rule ran, and [Execute] calls that held
    function; after a later [OverrideFilter] or [ReplaceFilter] of the same
    name the registry, hence [ApplyFilter], answers with the new function
    and every node parsed from then on under that name holds the new
    function, while [Execute] on the node parsed before is still a call of
    the old one. *)
Theorem parseFilter_early_binding (p p1 : Parser) (fs fs1 fs2 : Registry)
    (fc : filterCall) (f g : FilterFunction) :
  parseFilter p fs = ((Some fc, None), p1, fs1) ->
  fs !! name fc = Some f ->
  OverrideFilter (name fc) g fs1 = (None, fs2)
    \/ ReplaceFilter (name fc) g fs1 = (None, fs2) ->
  filterFunc fc = f
  /\ (forall v param ctx, evalParameter fc ctx = inl param ->
      Execute fc v ctx =
        match f v param (Public ctx) with
        | (_, Some err) =>
            (None, Some (updateFromTokenIfNeeded err (template ctx) (token fc)))
        | (filteredValue, None) => (filteredValue, None)
        end)
  /\ (forall v b, ApplyFilter (name fc) v None b fs2 = (g v (AsValue ANil) b, fs2))
  /\ (forall q q' fs3 fc' e,
        parseFilter q fs2 = ((Some fc', e), q', fs3) ->
        name fc' = name fc -> filterFunc fc' = g).
Proof.
  intros Hp Hf Hset.
  destruct (parseFilter_node _ _ _ _ _ _ Hp) as (t & _ & _ & _ & Hn & Hb & _).
  assert (Hff : filterFunc fc = f) by congruence.
  assert (Hg : fs2 !! name fc = Some g).
  { destruct Hset as [Ho|Hr].
    - rewrite OverrideFilter_run in Ho. injection Ho as <-.
      apply lookup_insert_eq.
    - destruct (fs1 !! name fc) as [h|] eqn:H1.
      + rewrite ReplaceFilter_present in Hr by (rewrite H1; eauto).
        injection Hr as <-. apply lookup_insert_eq.
      + rewrite ReplaceFilter_missing in Hr by exact H1. discriminate. }
  split; [exact Hff|]. split; [|split].
  - intros v param ctx Hpar. rewrite <- Hff. apply Execute_run, Hpar.
  - intros v b. apply (ApplyFilter_found _ g v None b fs2 Hg).
  - intros q q' fs3 fc' e Hq Hname.
    destruct (parseFilter_node _ _ _ _ _ _ Hq) as (t' & _ & _ & _ & Hn' & Hb' & _).
    congruence.
Qed.

End GrammarFacts.

(** ** The rule on concrete token streams *)

Lemma parseFilter_name_witness :
  let run ts :=
    parseFilter Fixture.parserError Fixture.variableOrLiteral (Fixture.stream ts)
                Fixture.registry in
  let arg := [Fixture.ident "add" 1; Fixture.symbol ":" 4; Fixture.number "5" 5] in
  run [Fixture.symbol "|" 1]
    = ((None, Some (Fixture.parserError (Fixture.stream [Fixture.symbol "|" 1])
                      NotAnIdentifier None)),
       Fixture.stream [Fixture.symbol "|" 1], Fixture.registry)
  /\ run [Fixture.ident "bogus" 1]
    = ((None, Some (Fixture.parserError
                      (Consume (Fixture.stream [Fixture.ident "bogus" 1]))
                      (UnknownFilterParse "bogus")
                      (Some (Fixture.ident "bogus" 1)))),
       Consume (Fixture.stream [Fixture.ident "bogus" 1]), Fixture.registry)
  /\ run [Fixture.ident "double" 1]
    = ((Some (Fixture.node (Fixture.ident "double" 1) None Fixture.double), None),
       Consume (Fixture.stream [Fixture.ident "double" 1]), Fixture.registry)
  /\ (run arg
      = ((Some (Fixture.node (Fixture.ident "add" 1) (Some (Fixture.literal 5))
                             Fixture.add), None),
         Consume (Consume (Consume (Fixture.stream arg))), Fixture.registry)
     /\ filterFunc (Fixture.node (Fixture.ident "add" 1) (Some (Fixture.literal 5))
                                 Fixture.add) = Fixture.add
     /\ Fixture.registry !! "add" = Some Fixture.add).
Proof.
  intros run arg. split; [|split; [|split]].
  - destruct (parseFilter_name Fixture.parserError Fixture.variableOrLiteral
                (Fixture.stream [Fixture.symbol "|" 1]) Fixture.registry)
      as (H & _ & _ & _).
    apply H. intros t [= <-]. discriminate.
  - destruct (parseFilter_name Fixture.parserError Fixture.variableOrLiteral
                (Fixture.stream [Fixture.ident "bogus" 1]) Fixture.registry)
      as (_ & H & _ & _).
    apply (H (Fixture.ident "bogus" 1)); reflexivity.
  - destruct (parseFilter_name Fixture.parserError Fixture.variableOrLiteral
                (Fixture.stream [Fixture.ident "double" 1]) Fixture.registry)
      as (_ & _ & H & _).
    destruct (H (Fixture.ident "double" 1) Fixture.double eq_refl eq_refl eq_refl)
      as [Hbare _].
    apply Hbare. reflexivity.
  - destruct (parseFilter_name Fixture.parserError Fixture.variableOrLiteral
                (Fixture.stream arg) Fixture.registry)
      as (_ & _ & H & Hreg).
    destruct (H (Fixture.ident "add" 1) Fixture.add eq_refl eq_refl eq_refl)
      as [_ Hnode].
    split; [reflexivity|]. split.
    + apply (Hnode _ None (Consume (Consume (Consume (Fixture.stream arg))))
               Fixture.registry). reflexivity.
    + apply (Hreg (Fixture.node (Fixture.ident "add" 1) (Some (Fixture.literal 5))
                                Fixture.add)
                  None (Consume (Consume (Consume (Fixture.stream arg))))
                  Fixture.registry). reflexivity.
Defined.

Lemma parseFilter_argument_witness :
  let run ts :=
    parseFilter Fixture.parserError Fixture.variableOrLiteral (Fixture.stream ts)
                Fixture.registry in
  let add := Fixture.ident "add" 1 in
  let colon := Fixture.symbol ":" 4 in
  (run [add; colon; Fixture.symbol "}}" 6]).1.1
    = (None, Some (Fixture.parserError
                     (Consume (Consume (Fixture.stream
                                          [add; colon; Fixture.symbol "}}" 6])))
                     MissingArgument None))
  /\ (run [add; colon; Fixture.symbol "|" 5]).1.1
    = (None, Some (Fixture.parserError
                     (Consume (Consume (Fixture.stream
                                          [add; colon; Fixture.symbol "|" 5])))
                     "Unexpected token." (Some (Fixture.symbol "|" 5))))
  /\ (run [add; colon; Fixture.number "5" 5; Fixture.symbol "}}" 7]).1.1.1
    = Some (Fixture.node add (Some (Fixture.literal 5)) Fixture.add).
Proof.
  intros run add colon. split; [|split].
  - destruct (parseFilter_argument Fixture.parserError Fixture.variableOrLiteral
                (Fixture.stream [add; colon; Fixture.symbol "}}" 6])
                Fixture.registry add colon Fixture.add
                eq_refl eq_refl eq_refl eq_refl eq_refl eq_refl) as [H _].
    unfold run. rewrite H; [reflexivity|]. eexists. reflexivity.
  - destruct (parseFilter_argument Fixture.parserError Fixture.variableOrLiteral
                (Fixture.stream [add; colon; Fixture.symbol "|" 5])
                Fixture.registry add colon Fixture.add
                eq_refl eq_refl eq_refl eq_refl eq_refl eq_refl) as [_ H].
    destruct (H eq_refl) as [He _].
    unfold run. rewrite (He _ _ _ _ eq_refl). reflexivity.
  - destruct (parseFilter_argument Fixture.parserError Fixture.variableOrLiteral
                (Fixture.stream [add; colon; Fixture.number "5" 5;
                                 Fixture.symbol "}}" 7])
                Fixture.registry add colon Fixture.add
                eq_refl eq_refl eq_refl eq_refl eq_refl eq_refl) as [_ H].
    destruct (H eq_refl) as [_ Hv].
    unfold run. rewrite (Hv _ _ _ eq_refl). reflexivity.
Defined.

Lemma parseFilter_early_binding_witness :
  let p := Fixture.stream [Fixture.ident "double" 4; Fixture.symbol "}}" 11] in
  let fc := Fixture.node (Fixture.ident "double" 4) None Fixture.double in
  let fs2 := (OverrideFilter "double" Fixture.neg Fixture.registry).2 in
  parseFilter Fixture.parserError Fixture.variableOrLiteral p Fixture.registry
    = ((Some fc, None), Consume p, Fixture.registry)
  /\ Execute fc (Fixture.int 3) Fixture.ctx0 = (Fixture.int 6, None)
  /\ ApplyFilter "double" (Fixture.int 3) None ∅ fs2 = ((Fixture.int (-3), None), fs2)
  /\ (parseFilter Fixture.parserError Fixture.variableOrLiteral p fs2).1.1.1
     = Some (Fixture.node (Fixture.ident "double" 4) None Fixture.neg).
Proof.
  intros p fc fs2.
  destruct (parseFilter_early_binding Fixture.parserError Fixture.variableOrLiteral
              p (Consume p) Fixture.registry Fixture.registry fs2 fc
              Fixture.double Fixture.neg eq_refl eq_refl (or_introl eq_refl))
    as (_ & Hexec & Happly & _).
  split; [reflexivity|]. split; [|split].
  - exact (Hexec (Fixture.int 3) (AsValue ANil) Fixture.ctx0 eq_refl).
  - exact (Happly (Fixture.int 3) ∅).
  - reflexivity.
Defined.

(** * Further properties of the registry *)

(** [RegisterFilter] returns no error exactly when [FilterExists] answered
    false beforehand, and the name exists afterwards in either case. *)
Theorem RegisterFilter_ok_iff (n : string) (f : FilterFunction) (fs : Registry) :
  ((RegisterFilter n f fs).1 = None <-> (FilterExists n fs).1 = false)
  /\ (FilterExists n (RegisterFilter n f fs).2).1 = true.
Proof.
  split.
  - rewrite FilterExists_run. cbn [fst].
    destruct (decide (is_Some (fs !! n))) as [Hs|Hs].
    + rewrite (RegisterFilter_taken n f fs Hs). cbn [fst].
      rewrite (bool_decide_eq_true_2 _ Hs). split; discriminate.
    + rewrite (bool_decide_eq_false_2 _ Hs).
      rewrite RegisterFilter_fresh; [tauto|].
      destruct (fs !! n); [destruct Hs; eauto | reflexivity].
  - rewrite FilterExists_run. cbn [fst]. apply bool_decide_eq_true_2.
    apply RegisterFilter_registered.
Qed.

(** [RegisterFilter] leaves the entry of every other name as it was, whether
    it succeeds or not. *)
Theorem RegisterFilter_other (n m : string) (f : FilterFunction) (fs : Registry) :
  m <> n -> (RegisterFilter n f fs).2 !! m = fs !! m.
Proof.
  intros Hm. destruct (fs !! n) as [h|] eqn:Hn.
  - rewrite RegisterFilter_taken by (rewrite Hn; eauto). reflexivity.
  - rewrite (RegisterFilter_fresh n f fs Hn). simpl.
    apply lookup_insert_ne. congruence.
Qed.

Lemma RegisterFilter_other_witness :
  (RegisterFilter "upper" Fixture.noparam Fixture.registry).2 !! "double"
  = Fixture.registry !! "double".
Proof.
  apply (RegisterFilter_other "upper" "double" Fixture.noparam Fixture.registry).
  discriminate.
Defined.

(** The [Delete] that [OverrideFilter] runs before its [Store] changes
    nothing in the outcome: the registry is the old one with the name mapped
    to the new function. *)
Theorem OverrideFilter_is_store (n : string) (g : FilterFunction) (fs : Registry) :
  OverrideFilter n g fs = (None, (filters.Store n g fs).2)
  /\ (OverrideFilter n g fs).2 = <[n := g]> fs.
Proof.
  rewrite OverrideFilter_run. unfold filters.Store. simpl.
  rewrite insert_delete_eq. auto.
Qed.

(** On every registry exactly one of [RegisterFilter] and [ReplaceFilter]
    succeeds for a given name, and the one that succeeds leaves the registry
    that [OverrideFilter] leaves. *)
Theorem Register_xor_Replace (n : string) (g : FilterFunction) (fs : Registry) :
  ((RegisterFilter n g fs).1 = None
     /\ (ReplaceFilter n g fs).1 = Some (MissingRegistration n)
     /\ (RegisterFilter n g fs).2 = (OverrideFilter n g fs).2)
  \/ ((ReplaceFilter n g fs).1 = None
     /\ (RegisterFilter n g fs).1 = Some (DuplicateRegistration n)
     /\ (ReplaceFilter n g fs).2 = (OverrideFilter n g fs).2).
Proof.
  rewrite OverrideFilter_run. cbn [snd]. rewrite insert_delete_eq.
  destruct (fs !! n) as [h|] eqn:Hn.
  - right. rewrite ReplaceFilter_present, RegisterFilter_taken
      by (rewrite Hn; eauto). auto.
  - left. rewrite (ReplaceFilter_missing n g fs Hn), (RegisterFilter_fresh n g fs Hn).
    auto.
Qed.

(** Of two [OverrideFilter] calls on one name the last one wins: the
    registry is the one the second call alone would leave. *)
Theorem OverrideFilter_last_wins (n : string) (f g : FilterFunction) (fs : Registry) :
  (OverrideFilter n g (OverrideFilter n f fs).2).2 = (OverrideFilter n g fs).2.
Proof.
  rewrite !OverrideFilter_run. cbn [snd].
  rewrite !insert_delete_eq. apply insert_insert_eq.
Qed.

(** Replacing a filter and then replacing it back with the original function
    restores the registry, both calls succeeding. *)
Theorem ReplaceFilter_back (n : string) (f g : FilterFunction) (fs : Registry) :
  fs !! n = Some f ->
  (ReplaceFilter n g fs).1 = None
  /\ ReplaceFilter n f (ReplaceFilter n g fs).2 = (None, fs).
Proof.
  intros Hn.
  rewrite ReplaceFilter_present by (rewrite Hn; eauto). simpl.
  split; [reflexivity|].
  rewrite ReplaceFilter_present by (rewrite lookup_insert_eq; eauto).
  rewrite insert_insert_eq, (insert_id fs n f Hn). reflexivity.
Qed.

Lemma ReplaceFilter_back_witness :
  (ReplaceFilter "double" Fixture.neg Fixture.registry).1 = None
  /\ ReplaceFilter "double" Fixture.double
       (ReplaceFilter "double" Fixture.neg Fixture.registry).2
     = (None, Fixture.registry).
Proof.
  apply (ReplaceFilter_back "double" Fixture.double Fixture.neg Fixture.registry).
  reflexivity.
Defined.

(** Registrations under two different names do not interfere: in either
    order each call returns what it returns alone and the registry is the
    same. *)
Theorem RegisterFilter_commute (n m : string) (f g : FilterFunction) (fs : Registry) :
  n <> m ->
  (RegisterFilter m g (RegisterFilter n f fs).2).1 = (RegisterFilter m g fs).1
  /\ (RegisterFilter n f (RegisterFilter m g fs).2).1 = (RegisterFilter n f fs).1
  /\ (RegisterFilter m g (RegisterFilter n f fs).2).2
     = (RegisterFilter n f (RegisterFilter m g fs).2).2.
Proof.
  intros Hnm.
  destruct (fs !! n) as [hn|] eqn:Hn; destruct (fs !! m) as [hm|] eqn:Hm.
  - rewrite (RegisterFilter_taken n f fs) by (rewrite Hn; eauto). cbn [fst snd].
    rewrite (RegisterFilter_taken m g fs) by (rewrite Hm; eauto). cbn [fst snd].
    rewrite (RegisterFilter_taken n f fs) by (rewrite Hn; eauto).
    repeat split; reflexivity.
  - rewrite (RegisterFilter_taken n f fs) by (rewrite Hn; eauto). cbn [fst snd].
    rewrite (RegisterFilter_fresh m g fs Hm). cbn [fst snd].
    rewrite (RegisterFilter_taken n f (<[m:=g]> fs))
      by (rewrite lookup_insert_ne, Hn by congruence; eauto).
    repeat split; reflexivity.
  - rewrite (RegisterFilter_fresh n f fs Hn). cbn [fst snd].
    rewrite (RegisterFilter_taken m g fs) by (rewrite Hm; eauto). cbn [fst snd].
    rewrite (RegisterFilter_taken m g (<[n:=f]> fs))
      by (rewrite lookup_insert_ne, Hm by congruence; eauto).
    rewrite (RegisterFilter_fresh n f fs Hn).
    repeat split; reflexivity.
  - rewrite (RegisterFilter_fresh n f fs Hn). cbn [fst snd].
    rewrite (RegisterFilter_fresh m g fs Hm). cbn [fst snd].
    rewrite (RegisterFilter_fresh m g (<[n:=f]> fs))
      by (rewrite lookup_insert_ne by congruence; exact Hm).
    rewrite (RegisterFilter_fresh n f (<[m:=g]> fs))
      by (rewrite lookup_insert_ne by congruence; exact Hn).
    cbn [fst snd]. split; [reflexivity|]. split; [reflexivity|].
    apply insert_insert_ne. congruence.
Qed.

Lemma RegisterFilter_commute_witness :
  (RegisterFilter "neg" Fixture.neg (RegisterFilter "double" Fixture.double init).2).2
  = (RegisterFilter "double" Fixture.double (RegisterFilter "neg" Fixture.neg init).2).2.
Proof.
  apply (RegisterFilter_commute "double" "neg" Fixture.double Fixture.neg init).
  discriminate.
Defined.

(** Passing a nil parameter to [ApplyFilter] is the same as passing
    [AsValue(nil)], for a registered and for an unknown name alike. *)
Theorem ApplyFilter_nil_is_sentinel (n : string) (v : option Value) (b : Context)
    (fs : Registry) :
  ApplyFilter n v None b fs = ApplyFilter n v (AsValue ANil) b fs.
Proof.
  destruct (fs !! n) as [f|] eqn:Hn.
  - rewrite (ApplyFilter_found n f v None b fs Hn).
    rewrite (ApplyFilter_found n f v (AsValue ANil) b fs Hn). reflexivity.
  - rewrite !(ApplyFilter_missing n v _ b fs Hn). reflexivity.
Qed.

(** ** Sequences of calls *)

Lemma runCall_dom (c : Call) (fs : Registry) :
  dom (runCall c fs).2 = dom fs ∪ installs c.
Proof.
  destruct c as [n|n fn|n fn|n fn|n v p b]; cbn [runCall installs];
    unfold mbind at 1, M_bind at 1.
  - rewrite FilterExists_run. simpl. set_solver.
  - destruct (fs !! n) as [h|] eqn:Hn.
    + rewrite RegisterFilter_taken by (rewrite Hn; eauto). simpl.
      apply elem_of_dom_2 in Hn. set_solver.
    + rewrite (RegisterFilter_fresh n fn fs Hn). simpl.
      rewrite dom_insert_L. set_solver.
  - destruct (fs !! n) as [h|] eqn:Hn.
    + rewrite ReplaceFilter_present by (rewrite Hn; eauto). simpl.
      rewrite dom_insert_L. apply elem_of_dom_2 in Hn. set_solver.
    + rewrite (ReplaceFilter_missing n fn fs Hn). simpl. set_solver.
  - rewrite OverrideFilter_run. simpl.
    rewrite insert_delete_eq, dom_insert_L. set_solver.
  - destruct (fs !! n) as [h|] eqn:Hn.
    + rewrite (ApplyFilter_found n h v p b fs Hn). simpl. set_solver.
    + rewrite (ApplyFilter_missing n v p b fs Hn). simpl. set_solver.
Qed.

(** After any sequence of calls of the exported functions the registered
    names are the names registered before together with the names given to
    [RegisterFilter] and [OverrideFilter]: no call removes a name, and
    [ReplaceFilter], [FilterExists] and [ApplyFilter] add none. *)
Theorem runCalls_dom (cs : list Call) (fs : Registry) :
  dom (runCalls cs fs).2 = dom fs ∪ ⋃ (installs <$> cs).
Proof.
  revert fs. induction cs as [|c cs IH]; intros fs.
  - simpl. set_solver.
  - simpl. unfold mbind, M_bind.
    destruct (runCall c fs) as [[] fs1] eqn:Hc.
    rewrite IH. change fs1 with ((tt, fs1).2). rewrite <- Hc, runCall_dom.
    set_solver.
Qed.

Lemma union_insert_taken (fs m : Registry) (n : string) (f : FilterFunction) :
  is_Some (fs !! n) -> fs ∪ <[n := f]> m = fs ∪ m.
Proof.
  intros [h Hn]. apply map_eq. intros i. rewrite !lookup_union.
  destruct (decide (i = n)) as [->|Hi].
  - rewrite Hn. destruct (<[n:=f]> m !! n), (m !! n); reflexivity.
  - rewrite lookup_insert_ne by congruence. reflexivity.
Qed.

(** Registering a list of filters in order leaves every entry the registry
    already had and, for a new name, the function of its first occurrence in
    the list: the registry is the old one united (old entries first) with
    the list read as a map. *)
Theorem registerAll_registry (l : list (string * FilterFunction)) (fs : Registry) :
  (registerAll l fs).2 = fs ∪ list_to_map l.
Proof.
  revert fs. induction l as [|[n f] l IH]; intros fs.
  - simpl. rewrite (right_id_L ∅ (∪)). reflexivity.
  - simpl. unfold mbind at 1, M_bind at 1.
    destruct (RegisterFilter n f fs) as [e fs1] eqn:Hr.
    unfold mbind, M_bind. destruct (registerAll l fs1) as [es fs2] eqn:Hl.
    simpl. change fs2 with ((es, fs2).2). rewrite <- Hl, IH.
    destruct (fs !! n) as [h|] eqn:Hn.
    + rewrite RegisterFilter_taken in Hr by (rewrite Hn; eauto).
      injection Hr as _ <-.
      symmetry. apply union_insert_taken. rewrite Hn. eauto.
    + rewrite (RegisterFilter_fresh n f fs Hn) in Hr. injection Hr as _ <-.
      rewrite <- insert_union_l. apply insert_union_r. exact Hn.
Qed.

(** Start-up registration goes through without a single error exactly when
    the names in the list are pairwise different and none was registered
    before. *)
Theorem registerAll_no_error (l : list (string * FilterFunction)) (fs : Registry) :
  Forall (fun e => e = None) (registerAll l fs).1
  <-> NoDup l.*1 /\ Forall (fun n => fs !! n = None) l.*1.
Proof.
  revert fs. induction l as [|[n f] l IH]; intros fs.
  - simpl. split; [intros _; split; constructor | constructor].
  - simpl. unfold mbind at 1, M_bind at 1.
    destruct (RegisterFilter n f fs) as [e fs1] eqn:Hr.
    unfold mbind, M_bind. destruct (registerAll l fs1) as [es fs2] eqn:Hl.
    simpl. rewrite Forall_cons, NoDup_cons, Forall_cons.
    change es with ((es, fs2).1). rewrite <- Hl, IH.
    destruct (fs !! n) as [h|] eqn:Hn.
    + rewrite RegisterFilter_taken in Hr by (rewrite Hn; eauto).
      injection Hr as <- <-. split.
      * intros [? _]. discriminate.
      * intros [_ [? _]]. discriminate.
    + rewrite (RegisterFilter_fresh n f fs Hn) in Hr. injection Hr as <- <-.
      split.
      * intros (_ & Hnd & Hall). split; [split; [|exact Hnd]|split; [reflexivity|]].
        -- intros Hin. rewrite Forall_forall in Hall.
           specialize (Hall n Hin). rewrite lookup_insert_eq in Hall. discriminate.
        -- rewrite Forall_forall in *. intros m Hm. specialize (Hall m Hm).
           destruct (decide (m = n)) as [->|Hne]; [exact Hn|].
           rewrite lookup_insert_ne in Hall by congruence. exact Hall.
      * intros ((Hnin & Hnd) & _ & Hall). split; [reflexivity|].
        split; [exact Hnd|]. rewrite Forall_forall in *. intros m Hm.
        rewrite lookup_insert_ne by (intros ->; contradiction).
        apply Hall, Hm.
Qed.

(** Overriding with a list of filters in order leaves, for a name in the
    list, the function of its last occurrence, and the old entry for every
    other name: the registry is the reversed list read as a map, united with
    the old registry. *)
Theorem overrideAll_registry (l : list (string * FilterFunction)) (fs : Registry) :
  (overrideAll l fs).2 = list_to_map (reverse l) ∪ fs.
Proof.
  revert fs. induction l as [|[n f] l IH]; intros fs.
  - simpl. rewrite (left_id_L ∅ (∪)). reflexivity.
  - simpl. unfold mbind, M_bind. rewrite OverrideFilter_run. rewrite IH.
    rewrite insert_delete_eq, reverse_cons, list_to_map_app. simpl.
    rewrite <- (assoc_L (∪)), <- insert_union_l, (left_id_L ∅ (∪)).
    reflexivity.
Qed.

Lemma RegisterFilter_ok_iff_witness :
  (RegisterFilter "double" Fixture.double init).1 = None
  /\ (RegisterFilter "double" Fixture.neg Fixture.registry).1 <> None.
Proof.
  split.
  - apply (RegisterFilter_ok_iff "double" Fixture.double init). reflexivity.
  - intros H.
    apply (RegisterFilter_ok_iff "double" Fixture.neg Fixture.registry) in H.
    discriminate H.
Defined.

Lemma registerAll_no_error_witness :
  Forall (fun e => e = None)
    (registerAll [("double", Fixture.double); ("neg", Fixture.neg)] init).1
  /\ ~ Forall (fun e => e = None)
        (registerAll [("double", Fixture.double); ("double", Fixture.neg)] init).1.
Proof.
  split.
  - apply (registerAll_no_error [("double", Fixture.double); ("neg", Fixture.neg)] init).
    split.
    + apply NoDup_cons. split; [|apply NoDup_singleton].
      intros Hin. apply list_elem_of_singleton in Hin. discriminate Hin.
    + repeat constructor.
  - intros H.
    apply (registerAll_no_error
             [("double", Fixture.double); ("double", Fixture.neg)] init) in H.
    destruct H as [Hnd _]. apply NoDup_cons in Hnd as [Hnin _].
    apply Hnin. apply list_elem_of_singleton. reflexivity.
Defined.

(** * Further properties of the node and of the grammar rule *)

(** [Execute] never returns a value together with an error: when it returns
    an error the value is nil, also when the filter function itself returned
    both. *)
Theorem Execute_error_no_value (fc : filterCall) (v : option Value)
    (ctx : ExecutionContext) (e : Error) :
  (Execute fc v ctx).2 = Some e -> (Execute fc v ctx).1 = None.
Proof.
  unfold Execute. destruct (evalParameter fc ctx) as [param|err]; [|reflexivity].
  destruct (filterFunc fc v param (Public ctx)) as [fv [err|]];
    [reflexivity | discriminate].
Qed.

Lemma Execute_error_no_value_witness :
  Fixture.leaky (Fixture.int 3) (AsValue ANil) ∅ =
    (Fixture.int 3, Some (Fixture.notANumber "filter:leaky"))
  /\ (Execute (Fixture.node (Fixture.ident "leaky" 1) None Fixture.leaky)
              (Fixture.int 3) Fixture.ctx0).1 = None.
Proof.
  split; [reflexivity|].
  apply (Execute_error_no_value
           (Fixture.node (Fixture.ident "leaky" 1) None Fixture.leaky)
           (Fixture.int 3) Fixture.ctx0
           (updateFromTokenIfNeeded (Fixture.notANumber "filter:leaky")
              (template Fixture.ctx0) (Some (Fixture.ident "leaky" 1)))).
  reflexivity.
Defined.

(** A node whose function is the registry's entry for its name, run with a
    non-nil parameter (the sentinel of a node without argument included),
    does what [ApplyFilter] does by name: the same value when the filter
    succeeds; when the filter fails, no value and the filter's error passed
    through [updateFromTokenIfNeeded]. *)
Theorem Execute_agrees_with_ApplyFilter (fc : filterCall) (v : option Value)
    (pv : Value) (ctx : ExecutionContext) (fs : Registry) :
  fs !! name fc = Some (filterFunc fc) ->
  evalParameter fc ctx = inl (Some pv) ->
  (forall r, (ApplyFilter (name fc) v (Some pv) (Public ctx) fs).1 = (r, None) ->
     Execute fc v ctx = (r, None))
  /\ (forall r e,
       (ApplyFilter (name fc) v (Some pv) (Public ctx) fs).1 = (r, Some e) ->
       Execute fc v ctx =
         (None, Some (updateFromTokenIfNeeded e (template ctx) (token fc)))).
Proof.
  intros Hf Hp.
  rewrite (ApplyFilter_found _ _ v (Some pv) (Public ctx) fs Hf).
  rewrite (Execute_run fc v (Some pv) ctx Hp). cbn [fst].
  split; intros; rewrite H; reflexivity.
Qed.

Lemma Execute_agrees_with_ApplyFilter_witness :
  Execute (Fixture.node (Fixture.ident "add" 1) (Some (Fixture.literal 5)) Fixture.add)
          (Fixture.int 3) Fixture.ctx0
  = (Fixture.int 8, None).
Proof.
  destruct (Execute_agrees_with_ApplyFilter
              (Fixture.node (Fixture.ident "add" 1) (Some (Fixture.literal 5))
                            Fixture.add)
              (Fixture.int 3) (mkValue (AInt 5)) Fixture.ctx0 Fixture.registry
              eq_refl eq_refl) as [H _].
  apply H. reflexivity.
Defined.

Section GrammarMore.

Context (Parser_Error : Parser -> string -> option Token -> Error)
        (parseVariableOrLiteral :
           Parser -> M ((option IEvaluator * option Error) * Parser)).

Local Abbreviation parseFilter :=
  (parseFilter Parser_Error parseVariableOrLiteral).

(** A registered identifier that is not followed by [:] (another token, or
    the end of the stream) parses to a node without parameter: one token is
    consumed, the expression rule is not run and the registry is left
    alone. *)
Theorem parseFilter_ident_only (p : Parser) (fs : Registry) (t : Token)
    (f : FilterFunction) :
  Current p = Some t -> Typ t = TokenIdentifier -> fs !! Val t = Some f ->
  Peek TokenSymbol ":" (Consume p) = None ->
  parseFilter p fs =
    ((Some {| token := Some t; name := Val t; parameter := None;
              filterFunc := f |}, None), Consume p, fs).
Proof.
  intros Hc Ht Hf Hpeek. unfold parseFilter.
  rewrite (MatchType_hit _ _ _ Hc Ht). run_M. rewrite Hf.
  unfold Match. rewrite Hpeek. reflexivity.
Qed.

(** The rule returns a node or an error, never both and never neither,
    whatever the expression rule returns. *)
Theorem parseFilter_node_xor_error (p : Parser) (fs : Registry) :
  (exists fc, (parseFilter p fs).1.1 = (Some fc, None))
  \/ (exists e, (parseFilter p fs).1.1 = (None, Some e)).
Proof.
  unfold parseFilter.
  destruct (MatchType TokenIdentifier p) as [[t|] p1]; [|right; eexists; reflexivity].
  run_M. destruct (fs !! Val t) as [f|]; [|right; eexists; reflexivity].
  destruct (Match TokenSymbol ":" p1) as [[c|] p2]; [|left; eexists; reflexivity].
  destruct (atTerminator p2); [right; eexists; reflexivity|].
  destruct (parseVariableOrLiteral p2 fs) as [[[v [err|]] p3] fs3].
  - right. eexists. reflexivity.
  - left. eexists. reflexivity.
Qed.

(** The rule only reads the registry: when the expression rule leaves the
    registry alone, so does [parseFilter], on success and on every error. *)
Theorem parseFilter_registry_unchanged (p : Parser) (fs : Registry) :
  (forall q gs, (parseVariableOrLiteral q gs).2 = gs) ->
  (parseFilter p fs).2 = fs.
Proof.
  intros Hpure. unfold parseFilter.
  destruct (MatchType TokenIdentifier p) as [[t|] p1]; [|reflexivity].
  run_M. destruct (fs !! Val t) as [f|]; [|reflexivity].
  destruct (Match TokenSymbol ":" p1) as [[c|] p2]; [|reflexivity].
  destruct (atTerminator p2); [reflexivity|].
  specialize (Hpure p2 fs).
  destruct (parseVariableOrLiteral p2 fs) as [[[v [err|]] p3] fs3];
    simpl in Hpure; subst fs3; reflexivity.
Qed.

(** A node that comes out of the rule carries the identifier token that was
    under the cursor, and its name is that token's text. *)
Theorem parseFilter_node_token (p p' : Parser) (fs fs' : Registry)
    (fc : filterCall) (e : option Error) :
  parseFilter p fs = ((Some fc, e), p', fs') ->
  exists t, Current p = Some t /\ Typ t = TokenIdentifier
    /\ token fc = Some t /\ name fc = Val t.
Proof.
  intros Hp.
  destruct (parseFilter_node _ _ _ _ _ _ _ _ Hp) as (t & Hc & Ht & Htok & Hn & _).
  exists t. auto.
Qed.

(** Parsing a registered identifier without argument and executing the node
    gives, when the filter succeeds, the value [ApplyFilter] gives for that
    name with a nil parameter and the context's public variables. *)
Theorem parse_then_Execute (p : Parser) (fs : Registry) (t : Token)
    (f : FilterFunction) (v r : option Value) (ctx : ExecutionContext) :
  Current p = Some t -> Typ t = TokenIdentifier -> fs !! Val t = Some f ->
  Peek TokenSymbol ":" (Consume p) = None ->
  (ApplyFilter (Val t) v None (Public ctx) fs).1 = (r, None) ->
  exists fc, (parseFilter p fs).1.1 = (Some fc, None)
    /\ Execute fc v ctx = (r, None).
Proof.
  intros Hc Ht Hf Hpeek Happly.
  rewrite (ApplyFilter_found _ f v None (Public ctx) fs Hf) in Happly.
  cbn [fst] in Happly.
  unfold parseFilter.
  rewrite (MatchType_hit _ _ _ Hc Ht). run_M. rewrite Hf.
  unfold Match. rewrite Hpeek. simpl.
  eexists. split; [reflexivity|].
  unfold Execute, evalParameter. simpl. rewrite Happly. reflexivity.
Qed.

End GrammarMore.

Lemma parseFilter_ident_only_witness :
  parseFilter Fixture.parserError Fixture.variableOrLiteral
    (Fixture.stream [Fixture.ident "double" 4; Fixture.symbol "|" 10;
                     Fixture.ident "neg" 11]) Fixture.registry
  = ((Some (Fixture.node (Fixture.ident "double" 4) None Fixture.double), None),
     Consume (Fixture.stream [Fixture.ident "double" 4; Fixture.symbol "|" 10;
                              Fixture.ident "neg" 11]),
     Fixture.registry).
Proof.
  apply (parseFilter_ident_only Fixture.parserError Fixture.variableOrLiteral
           _ Fixture.registry (Fixture.ident "double" 4) Fixture.double);
    reflexivity.
Defined.

Lemma parseFilter_registry_unchanged_witness :
  (parseFilter Fixture.parserError Fixture.variableOrLiteral
     (Fixture.stream [Fixture.ident "add" 1; Fixture.symbol ":" 4;
                      Fixture.number "5" 5]) Fixture.registry).2
  = Fixture.registry.
Proof.
  apply (parseFilter_registry_unchanged Fixture.parserError
           Fixture.variableOrLiteral).
  intros q gs. unfold Fixture.variableOrLiteral.
  destruct (Current q) as [t|]; [|reflexivity].
  destruct (Typ t); reflexivity.
Defined.

Lemma parseFilter_node_token_witness :
  exists t,
    Current (Fixture.stream [Fixture.ident "neg" 7]) = Some t
    /\ Typ t = TokenIdentifier
    /\ token (Fixture.node (Fixture.ident "neg" 7) None Fixture.neg) = Some t
    /\ name (Fixture.node (Fixture.ident "neg" 7) None Fixture.neg) = Val t.
Proof.
  apply (parseFilter_node_token Fixture.parserError Fixture.variableOrLiteral
           (Fixture.stream [Fixture.ident "neg" 7])
           (Consume (Fixture.stream [Fixture.ident "neg" 7]))
           Fixture.registry Fixture.registry
           (Fixture.node (Fixture.ident "neg" 7) None Fixture.neg) None).
  reflexivity.
Defined.

Lemma parse_then_Execute_witness :
  exists fc,
    (parseFilter Fixture.parserError Fixture.variableOrLiteral
       (Fixture.stream [Fixture.ident "neg" 7]) Fixture.registry).1.1
      = (Some fc, None)
    /\ Execute fc (Fixture.int 3) Fixture.ctx0 = (Fixture.int (-3), None).
Proof.
  apply (parse_then_Execute Fixture.parserError Fixture.variableOrLiteral
           (Fixture.stream [Fixture.ident "neg" 7]) Fixture.registry
           (Fixture.ident "neg" 7) Fixture.neg (Fixture.int 3)
           (Fixture.int (-3)) Fixture.ctx0); reflexivity.
Defined.

Lemma ReplaceFilter_other_witness :
  (ReplaceFilter "double" Fixture.neg Fixture.registry).2 !! "add"
  = Fixture.registry !! "add".
Proof.
  apply (ReplaceFilter_other "double" "add" Fixture.neg Fixture.registry).
  discriminate.
Defined.

Lemma OverrideFilter_other_witness :
  (OverrideFilter "double" Fixture.neg Fixture.registry).2 !! "add"
  = Fixture.registry !! "add".
Proof.
  apply (OverrideFilter_other "double" "add" Fixture.neg Fixture.registry).
  discriminate.
Defined.
